(** * Verification of the voice-assistant request handler (agent.py)

    The handler [process_audio] of agent.py is embedded as a function on an
    explicit world state (dialogue history, console, trace of external
    calls).  The external collaborators (audio codec, speech recognition,
    chat completion, speech synthesis) are taken as arbitrary fallible
    functions bundled in a [Services] record, so every theorem holds for
    whatever these collaborators answer. *)

From Stdlib Require Import String Ascii List Bool Arith ZArith Lia Sorted.
Import ListNotations.
Open Scope string_scope.
Open Scope list_scope.

(** ** Strings as the handler uses them *)

Module PyStr.

(** The double-quote character, for the texts that contain it. *)
Definition dq : string := String (ascii_of_nat 34) EmptyString.

(** [s.split(sep)] for a one-character separator. *)
Fixpoint split (sep : ascii) (s : string) : list string :=
  match s with
  | EmptyString => [EmptyString]
  | String c rest =>
      if Ascii.eqb c sep then EmptyString :: split sep rest
      else match split sep rest with
           | [] => [String c EmptyString]
           | w :: ws => String c w :: ws
           end
  end.

(** [l[-1]] on a list of strings. *)
Definition last_item (l : list string) : string := List.last l EmptyString.

Definition is_upper (c : ascii) : bool :=
  let n := nat_of_ascii c in ((65 <=? n) && (n <=? 90))%nat.

Definition lower_char (c : ascii) : ascii :=
  if is_upper c then ascii_of_nat (nat_of_ascii c + 32) else c.

(** [s.lower()], on the ASCII letters. *)
Fixpoint lower (s : string) : string :=
  match s with
  | EmptyString => EmptyString
  | String c rest => String (lower_char c) (lower rest)
  end.

(** [needle in hay]. *)
Fixpoint contains (needle hay : string) : bool :=
  String.prefix needle hay ||
  match hay with
  | EmptyString => false
  | String _ rest => contains needle rest
  end.

(** [not s] for a string: true exactly on the empty string. *)
Definition is_empty (s : string) : bool :=
  match s with EmptyString => true | String _ _ => false end.

Definition is_space (c : ascii) : bool :=
  let n := nat_of_ascii c in
  ((n =? 32) || ((9 <=? n) && (n <=? 13)) || ((28 <=? n) && (n <=? 31)))%nat.

Fixpoint lstrip (s : string) : string :=
  match s with
  | EmptyString => EmptyString
  | String c rest => if is_space c then lstrip rest else s
  end.

Fixpoint rstrip (s : string) : string :=
  match s with
  | EmptyString => EmptyString
  | String c rest =>
      match rstrip rest with
      | EmptyString => if is_space c then EmptyString else String c EmptyString
      | kept => String c kept
      end
  end.

(** [s.strip()]. *)
Definition strip (s : string) : string := rstrip (lstrip s).

(** First component of [s.partition(sep)]: the text before the first
    [sep], or all of [s] when [sep] does not occur. *)
Fixpoint before_first (sep : ascii) (s : string) : string :=
  match s with
  | EmptyString => EmptyString
  | String c rest =>
      if Ascii.eqb c sep then EmptyString else String c (before_first sep rest)
  end.

(** Occurrence of a character in a string. *)
Fixpoint has_char (c : ascii) (s : string) : bool :=
  match s with
  | EmptyString => false
  | String d rest => Ascii.eqb d c || has_char c rest
  end.

End PyStr.
Import PyStr.

(** ** Data model *)

Definition bytes := list Byte.byte.

(** A raised exception that [except Exception] catches (an instance of
    [Exception]): its class name and [str(e)]. *)
Record Exc := mkExc { exc_class : string; exc_str : string }.

(** [str(e)]. *)
Definition str (e : Exc) : string := exc_str e.

(** An uploaded file part: the Content-Type header the client declared and
    what reading its stream yields. *)
Record FileStorage := {
  content_type : string;
  read : Exc + bytes
}.

(** The part's [mimetype] attribute.  It belongs to the web framework's
    upload object, whose documentation defines it as the content type
    without parameters and in lowercase (for [text/HTML; charset=utf-8]
    the mimetype is [text/html]): the header is cut at its first [;],
    stripped of surrounding blanks and lowercased. *)
Definition mimetype (f : FileStorage) : string :=
  lower (strip (before_first ";" (content_type f))).

(** [request.files]: the multipart fields in arrival order. *)
Record Request := { files : list (string * FileStorage) }.

(** [request.files[name]]: the first part of that name. *)
Fixpoint files_get (name : string) (fs : list (string * FileStorage))
  : option FileStorage :=
  match fs with
  | [] => None
  | (k, f) :: rest => if String.eqb k name then Some f else files_get name rest
  end.

(** [name in request.files]. *)
Definition files_mem (name : string) (fs : list (string * FileStorage)) : bool :=
  match files_get name fs with Some _ => true | None => false end.

(** One turn of the dialogue history. *)
Record Content := { role : string; parts : string }.

Record SpeechRecognitionAlternative := { transcript : string; confidence : nat }.
Record SpeechRecognitionResult := { alternatives : list SpeechRecognitionAlternative }.

Inductive AudioEncoding := LINEAR16 | MP3.
Inductive SsmlVoiceGender := FEMALE.

Record RecognitionConfig := {
  encoding : AudioEncoding;
  sample_rate_hertz : Z;
  language_code : string
}.

Record VoiceSelectionParams := {
  voice_language_code : string;
  ssml_gender : SsmlVoiceGender
}.

Record AudioConfig := { audio_encoding : AudioEncoding }.

(** HTTP responses. A JSON object is kept as its key/value pairs in
    insertion order. *)
Inductive Body :=
| Json (fields : list (string * string))
| File (data : bytes).

Record Response := {
  status_code : nat;
  resp_mimetype : string;
  resp_body : Body
}.

(** [jsonify(d)] and [jsonify(d), code]. *)
Definition jsonify (d : list (string * string)) (code : nat) : Response :=
  {| status_code := code; resp_mimetype := "application/json"; resp_body := Json d |}.

(** [send_file(io.BytesIO(data), mimetype=m, as_attachment=False)]. *)
Definition send_file (data : bytes) (m : string) : Response :=
  {| status_code := 200; resp_mimetype := m; resp_body := File data |}.

(** What a call of the view function ends with: a response it returned, or
    an exception that left it uncaught. *)
Inductive Outcome :=
| Responded (r : Response)
| Propagated (e : Exc).

(** External calls, recorded in the order they are made. *)
Inductive Call :=
| CallRead
| CallFromFile (data : bytes) (format : string)
| CallSetChannels (n : Z)
| CallSetFrameRate (n : Z)
| CallSetSampleWidth (n : Z)
| CallExport (format : string)
| CallRecognize (config : RecognitionConfig) (content : bytes)
| CallSendMessage (text : string)
| CallSynthesizeSpeech (text : string) (voice : VoiceSelectionParams)
                       (audio_config : AudioConfig).

(** The process-wide state a request runs in: the history of the global
    [chat] session, the console, and the trace of external calls. *)
Record World := {
  history : list Content;
  console : list string;
  calls : list Call
}.

(** The collaborators outside the repository. *)
Record Services := {
  AudioSegment : Type;
  from_file : bytes -> string -> Exc + AudioSegment;
  set_channels : AudioSegment -> Z -> Exc + AudioSegment;
  set_frame_rate : AudioSegment -> Z -> Exc + AudioSegment;
  set_sample_width : AudioSegment -> Z -> Exc + AudioSegment;
  export : AudioSegment -> string -> Exc + bytes;
  recognize : RecognitionConfig -> bytes -> Exc + list SpeechRecognitionResult;
  generate_content : list Content -> Exc + string;
  synthesize_speech :
    string -> VoiceSelectionParams -> AudioConfig -> Exc + bytes;
  (** the IndexError that indexing an empty [alternatives] raises *)
  index_error : Exc
}.

Definition SYSTEM_PROMPT : string :=
  String.concat dq [
"
You are ";
"Ross,";
" a friendly and efficient AI assistant for ";
"The Hungry Dragon";
" restaurant.
Your primary goal is to help customers with orders, table bookings, and provide information about the restaurant and menu.

**Here's the menu information:**
* **Pizzas:** Pepperoni ($15), Margherita ($14), Veggie ($16)
* **Pastas:** Spaghetti Carbonara ($12), Fettuccine Alfredo ($13)
* **Salads:** Garden Salad ($10), Caesar Salad ($11)
* **Special of the Day:** Dragon's Breath Chili ($18)
* **Drinks:** Water ($2), Soda ($3), Juice ($4)

**Restaurant Information:**
* **Opening Hours:** 11:00 AM to 10:00 PM daily.
* **Address:** 123 Main Street, Flavorville.
* **Phone:** (555) 123-4567.
* **Cuisine Type:** American with a fiery twist.
* **Atmosphere:** Cozy, rustic, and family-friendly.

**Booking Rules:**
* You can book tables for groups of 1 to 10 people.
* Always confirm date, time, and number of guests.
* Be aware of busy times (7 PM - 9 PM are often fully booked). If busy, suggest alternative times.

**Your Behavior:**
* Be polite, helpful, and clear.
* If you need more information (e.g., specific order items, booking details), politely ask clarifying questions.
* When confirming an order or booking, summarize the details clearly.
* If a customer tries to order something not on the menu, politely say ";
"I'm sorry, that item is not on our menu.";
"
* Do not try to process payments. If a customer asks, say ";
"You can pay at the counter when you pick up your order or after your meal.";
"
* Simulate actions: If an order or booking is confirmed, simply state that it has been ";
"placed";
" or ";
"confirmed";
" and print a message to the console on the backend server.

**Examples of interactions:**
* Customer: ";
"I want to order a pizza.";
" -> ChefBot: ";
"Which pizza would you like? Pepperoni, Margherita, or Veggie?";
"
* Customer: ";
"Book a table for 4 tomorrow at 7 PM.";
" -> ChefBot: ";
"Okay, booking a table for 4 people for tomorrow at 7 PM. Is that correct?";
"
* Customer: ";
"What time do you close?";
" -> ChefBot: ";
"We close at 10:00 PM daily.";
"
"
  ].

Definition GREETING : string :=
  "Hello! I'm ChefBot, your AI assistant for The Hungry Dragon restaurant. How can I help you today? Are you looking to order, book a table, or something else?".

(** The history the global [chat] session is started with. *)
Definition seed_history : list Content :=
  [ {| role := "user"; parts := SYSTEM_PROMPT |};
    {| role := "model"; parts := GREETING |} ].

(** The state at process start, before any request. *)
Definition initial_world : World :=
  {| history := seed_history; console := []; calls := [] |}.

(** ** Computations that raise and change the world

    A statement either yields a value or raises; in both cases the world it
    leaves behind is kept, since Python undoes nothing when an exception
    unwinds. *)

Definition Py (A : Type) : Type := World -> (Exc + A) * World.

Definition ret {A : Type} (a : A) : Py A := fun w => (inr a, w).

Definition bind {A B : Type} (m : Py A) (k : A -> Py B) : Py B :=
  fun w =>
    match m w with
    | (inl e, w') => (inl e, w')
    | (inr a, w') => k a w'
    end.

Declare Scope py_scope.
Delimit Scope py_scope with py.
Notation "x <- m ;; k" := (bind m (fun x => k))
  (at level 61, m at next level, right associativity) : py_scope.
Notation "m ;; k" := (bind m (fun _ => k))
  (at level 61, right associativity) : py_scope.
Open Scope py_scope.

(** A pure step that may raise. *)
Definition lift {A : Type} (r : Exc + A) : Py A := fun w => (r, w).

(** An external call: it is recorded, then answers or raises. *)
Definition invoke {A : Type} (c : Call) (r : Exc + A) : Py A :=
  fun w =>
    (r, {| history := history w; console := console w; calls := calls w ++ [c] |}).

(** [print(line)]. *)
Definition print (line : string) : Py unit :=
  fun w =>
    (inr tt,
     {| history := history w; console := console w ++ [line]; calls := calls w |}).

(** ** The dialogue session *)

(** Modelled from the spec: [chat.send_message] belongs to the chat client
    library, which is not part of the repository.  Following section 4.3,
    a request appends the user's transcript, invokes the remote
    chat-completion operation against the accumulated history, and appends
    the model's reply, in that order; the value returned is the reply text
    ([llm_response.text]). *)
Definition send_message (svc : Services) (text : string) : Py string :=
  fun w =>
    let sent := {| role := "user"; parts := text |} in
    let w1 := {| history := history w ++ [sent]; console := console w;
                 calls := calls w ++ [CallSendMessage text] |} in
    match generate_content svc (history w1) with
    | inl e => (inl e, w1)
    | inr reply =>
        (inr reply,
         {| history := history w1 ++ [{| role := "model"; parts := reply |}];
            console := console w1; calls := calls w1 |})
    end.

(** ** The request handler *)

(** Lines 109-111: the loop accumulating [customer_text]. *)
Fixpoint concat_transcripts (svc : Services) (customer_text : string)
    (results : list SpeechRecognitionResult) : Exc + string :=
  match results with
  | [] => inr customer_text
  | result :: rest =>
      match alternatives result with
      | [] => inl (index_error svc)
      | top :: _ => concat_transcripts svc (customer_text ++ transcript top) rest
      end
  end.

Definition ORDER_LINE : string := "--- Action: Food order placed! ---".
Definition BOOKING_LINE : string := "--- Action: Table booking confirmed! ---".

(** Lines 125-128: the console lines of the action logger. *)
Definition action_lines (chefbot_text : string) : list string :=
  (if contains "order placed" (lower chefbot_text) then [ORDER_LINE] else [])
  ++
  (if contains "table confirmed" (lower chefbot_text)
      || contains "booking confirmed" (lower chefbot_text)
   then [BOOKING_LINE] else []).

Fixpoint print_all (lines : list string) : Py unit :=
  match lines with
  | [] => ret tt
  | l :: rest => print l ;; print_all rest
  end.

(** Line 95: the [format] argument given to the decoder. *)
Definition format_hint (audio_file : FileStorage) : string :=
  last_item (split "/" (mimetype audio_file)).

Definition stt_config : RecognitionConfig :=
  {| encoding := LINEAR16; sample_rate_hertz := 16000%Z; language_code := "en-US" |}.

Definition tts_voice : VoiceSelectionParams :=
  {| voice_language_code := "en-US"; ssml_gender := FEMALE |}.

Definition tts_audio_config : AudioConfig := {| audio_encoding := MP3 |}.

Definition NOT_CAUGHT_TEXT : string :=
  "I didn't catch that. Could you please repeat?".

(** Lines 94-111: normalising the upload and transcribing it. *)
Definition transcribe (svc : Services) (audio_file : FileStorage)
    (audio_bytes : bytes) : Py string :=
  let fmt := format_hint audio_file in
  audio_segment <- invoke (CallFromFile audio_bytes fmt)
                          (from_file svc audio_bytes fmt) ;;
  audio_segment <- invoke (CallSetChannels 1%Z) (set_channels svc audio_segment 1%Z) ;;
  audio_segment <- invoke (CallSetFrameRate 16000%Z)
                          (set_frame_rate svc audio_segment 16000%Z) ;;
  audio_segment <- invoke (CallSetSampleWidth 2%Z)
                          (set_sample_width svc audio_segment 2%Z) ;;
  wav <- invoke (CallExport "wav") (export svc audio_segment "wav") ;;
  results <- invoke (CallRecognize stt_config wav) (recognize svc stt_config wav) ;;
  lift (concat_transcripts svc EmptyString results).

(** Lines 113-149: from the transcript to the response. *)
Definition respond (svc : Services) (customer_text : string) : Py Response :=
  if is_empty customer_text then
    ret (jsonify [("text", NOT_CAUGHT_TEXT); ("audio", EmptyString)] 200)
  else
    print ("Customer said: " ++ dq ++ customer_text ++ dq) ;;
    chefbot_text <- send_message svc customer_text ;;
    print ("ChefBot replied: " ++ dq ++ chefbot_text ++ dq) ;;
    print_all (action_lines chefbot_text) ;;
    audio_content <- invoke (CallSynthesizeSpeech chefbot_text tts_voice tts_audio_config)
                            (synthesize_speech svc chefbot_text tts_voice tts_audio_config) ;;
    ret (send_file audio_content "audio/mpeg").

(** Lines 94-149: the body of the [try] block. *)
Definition try_body (svc : Services) (audio_file : FileStorage)
    (audio_bytes : bytes) : Py Response :=
  customer_text <- transcribe svc audio_file audio_bytes ;;
  respond svc customer_text.

(** Lines 86-153: [process_audio].  The membership test and the read of the
    upload come before the [try]; the [except Exception] clause covers
    [try_body] only. *)
Definition process_audio (svc : Services) (request : Request)
  : World -> Outcome * World :=
  fun w =>
    match files_get "audio" (files request) with
    | None => (Responded (jsonify [("error", "No audio file provided")] 400), w)
    | Some audio_file =>
        match invoke CallRead (read audio_file) w with
        | (inl e, w1) => (Propagated e, w1)
        | (inr audio_bytes, w1) =>
            match try_body svc audio_file audio_bytes w1 with
            | (inr response, w2) => (Responded response, w2)
            | (inl e, w2) =>
                (Responded (jsonify [("error", str e)] 500),
                 snd (print ("An error occurred: " ++ str e) w2))
            end
        end
    end.

(** ** Vocabulary of the statements *)

(** [needle] occurs in [hay]. *)
Definition is_substring (needle hay : string) : Prop :=
  exists pre post, hay = (pre ++ needle ++ post)%string.

(** The transcript of the top alternative of a result, when it has one. *)
Definition top_transcript (r : SpeechRecognitionResult) : option string :=
  match alternatives r with
  | [] => None
  | top :: _ => Some (transcript top)
  end.

Fixpoint top_transcripts (results : list SpeechRecognitionResult)
  : option (list string) :=
  match results with
  | [] => Some []
  | r :: rest =>
      match top_transcript r, top_transcripts rest with
      | Some t, Some ts => Some (t :: ts)
      | _, _ => None
      end
  end.

(** Joining with no separator. *)
Definition join (ts : list string) : string := String.concat EmptyString ts.

Definition sum_bind {A B : Type} (r : Exc + A) (k : A -> Exc + B) : Exc + B :=
  match r with
  | inl e => inl e
  | inr a => k a
  end.

(** What the recognition service answers for an upload, when the codec
    steps before it all succeed. *)
Definition recognized (svc : Services) (audio_file : FileStorage)
    (audio_bytes : bytes) : Exc + list SpeechRecognitionResult :=
  sum_bind (from_file svc audio_bytes (format_hint audio_file)) (fun s1 =>
  sum_bind (set_channels svc s1 1%Z) (fun s2 =>
  sum_bind (set_frame_rate svc s2 16000%Z) (fun s3 =>
  sum_bind (set_sample_width svc s3 2%Z) (fun s4 =>
  sum_bind (export svc s4 "wav") (fun wav =>
  recognize svc stt_config wav))))).

(** The calls that belong to the dialogue and synthesis stages. *)
Definition is_chat_or_tts (c : Call) : bool :=
  match c with
  | CallSendMessage _ | CallSynthesizeSpeech _ _ _ => true
  | _ => false
  end.

Definition user_turn (text : string) : Content := {| role := "user"; parts := text |}.
Definition model_turn (text : string) : Content := {| role := "model"; parts := text |}.

(** A response carrying an [audio/mpeg] body. *)
Definition is_audio_response (r : Response) : Prop :=
  resp_mimetype r = "audio/mpeg" /\ exists data, resp_body r = File data.

(** A response whose body is a JSON object with the given key. *)
Definition has_json_field (key : string) (r : Response) : Prop :=
  exists d v, resp_body r = Json d /\ In (key, v) d.

(** An exception raised by one of the steps inside the [try] block, run
    against history [h]: a codec step or the recognition call (the steps
    [recognized] chains), the indexing of an empty [alternatives], the chat
    call, or the synthesis call, each after the steps before it succeeded. *)
Inductive raises_in_try (svc : Services) (f : FileStorage) (b : bytes)
    (h : list Content) (e : Exc) : Prop :=
| raise_recognize :
    recognized svc f b = inl e ->
    raises_in_try svc f b h e
| raise_index results :
    recognized svc f b = inr results ->
    top_transcripts results = None ->
    e = index_error svc -> raises_in_try svc f b h e
| raise_send_message results ts :
    recognized svc f b = inr results ->
    top_transcripts results = Some ts ->
    join ts <> EmptyString ->
    generate_content svc (h ++ [user_turn (join ts)])%list = inl e ->
    raises_in_try svc f b h e
| raise_synthesize_speech results ts reply :
    recognized svc f b = inr results ->
    top_transcripts results = Some ts ->
    join ts <> EmptyString ->
    generate_content svc (h ++ [user_turn (join ts)])%list = inr reply ->
    synthesize_speech svc reply tts_voice tts_audio_config = inl e ->
    raises_in_try svc f b h e.

(** The two console lines a request that reaches the dialogue prints. *)
Definition customer_line (t : string) : string :=
  ("Customer said: " ++ dq ++ t ++ dq)%string.

Definition chefbot_line (t : string) : string :=
  ("ChefBot replied: " ++ dq ++ t ++ dq)%string.

(** The world after the upload was read. *)
Definition after_read (w : World) : World :=
  {| history := history w; console := console w; calls := calls w ++ [CallRead] |}.

(** The world once transcription made the calls [new]. *)
Definition after_transcribe (w : World) (new : list Call) : World :=
  {| history := history w; console := console w;
     calls := calls w ++ CallRead :: new |}.

(** The console line of the [except] clause. *)
Definition error_line (e : Exc) : string := ("An error occurred: " ++ str e)%string.

(** The response of the [except] clause. *)
Definition error_response (e : Exc) : Response := jsonify [("error", str e)] 500.

(** The response of the empty-transcript branch. *)
Definition canned_response : Response :=
  jsonify [("text", NOT_CAUGHT_TEXT); ("audio", EmptyString)] 200.

(** ** Concrete collaborators and requests, for running the handler *)

Module Demo.

(** Collaborators whose codec passes the bytes through and whose three
    services answer as given. *)
Definition services (stt : Exc + list SpeechRecognitionResult)
    (llm : Exc + string) (tts : Exc + bytes) : Services :=
  {| AudioSegment := bytes;
     from_file := fun data _ => inr data;
     set_channels := fun seg _ => inr seg;
     set_frame_rate := fun seg _ => inr seg;
     set_sample_width := fun seg _ => inr seg;
     export := fun seg _ => inr seg;
     recognize := fun _ _ => stt;
     generate_content := fun _ => llm;
     synthesize_speech := fun _ _ _ => tts;
     index_error := mkExc "IndexError" "list index out of range" |}.

Definition clip : bytes := [Byte.x1a; Byte.x45; Byte.xdf; Byte.xa3].
Definition mp3 : bytes := [Byte.x49; Byte.x44; Byte.x33].

Definition upload (declared : string) : FileStorage :=
  {| content_type := declared; read := inr clip |}.

Definition broken_upload : FileStorage :=
  {| content_type := "audio/webm"; read := inl (mkExc "OSError" "stream closed") |}.

Definition request_with (f : FileStorage) : Request := {| files := [("audio", f)] |}.

Definition request_without_audio : Request :=
  {| files := [("file", upload "audio/wav")] |}.

Definition segment (alts : list string) : SpeechRecognitionResult :=
  {| alternatives := map (fun t => {| transcript := t; confidence := 90 |}) alts |}.

(** Two segments, each with a runner-up alternative. *)
Definition heard : list SpeechRecognitionResult :=
  [segment ["I want"; "I won't"]; segment [" a pizza"; " a pasta"]].

Definition silence : list SpeechRecognitionResult := [segment [EmptyString]].

Definition unavailable : Exc := mkExc "ServiceUnavailable" "503 recognizer unavailable".
Definition quota : Exc := mkExc "ResourceExhausted" "429 quota exceeded".

Definition reply_text : string := "Order placed. Anything else?".

(** All three services answer. *)
Definition happy : Services := services (inr heard) (inr reply_text) (inr mp3).

(** Recognition hears nothing. *)
Definition silent : Services := services (inr silence) (inr reply_text) (inr mp3).

(** Recognition raises. *)
Definition stt_down : Services := services (inl unavailable) (inr reply_text) (inr mp3).

(** Synthesis raises after the chat call answered. *)
Definition tts_down : Services := services (inr heard) (inr reply_text) (inl quota).

Definition webm : FileStorage := upload "audio/webm".

(** The content type a browser recorder declares. *)
Definition webm_opus : FileStorage := upload "audio/webm;codecs=opus".

End Demo.

(** ** The order of the external calls *)

(** Position of an external call in the order the handler's text has
    them. *)
Definition stage_rank (c : Call) : nat :=
  match c with
  | CallRead => 0
  | CallFromFile _ _ => 1
  | CallSetChannels _ => 2
  | CallSetFrameRate _ => 3
  | CallSetSampleWidth _ => 4
  | CallExport _ => 5
  | CallRecognize _ _ => 6
  | CallSendMessage _ => 7
  | CallSynthesizeSpeech _ _ _ => 8
  end.

(** The literal arguments the handler passes: mono, 16 kHz, 16-bit, WAV;
    LINEAR16 at 16 kHz in US English; a US English female voice as MP3. *)
Definition fixed_parameters (c : Call) : Prop :=
  match c with
  | CallSetChannels n => n = 1%Z
  | CallSetFrameRate n => n = 16000%Z
  | CallSetSampleWidth n => n = 2%Z
  | CallExport fmt => fmt = "wav"
  | CallRecognize cfg _ =>
      encoding cfg = LINEAR16 /\ sample_rate_hertz cfg = 16000%Z
      /\ language_code cfg = "en-US"
  | CallSynthesizeSpeech _ voice cfg =>
      voice_language_code voice = "en-US" /\ ssml_gender voice = FEMALE
      /\ audio_encoding cfg = MP3
  | CallRead | CallFromFile _ _ | CallSendMessage _ => True
  end.

(** What is asked of the calls transcription makes. *)
Definition transcription_trace (new : list Call) : Prop :=
  StronglySorted lt (map stage_rank new)
  /\ Forall fixed_parameters new
  /\ Forall (fun c => 1 <= stage_rank c <= 6) new.

(** The result of a request whose [audio] part was read as [b], written out
    stage by stage, given the calls [new] that transcription makes. *)
Definition staged_result (svc : Services) (f : FileStorage) (b : bytes)
    (new : list Call) (w : World) : Outcome * World :=
  match sum_bind (recognized svc f b) (concat_transcripts svc EmptyString) with
  | inl e =>
      (Responded (error_response e),
       {| history := history w;
          console := console w ++ [error_line e];
          calls := calls w ++ CallRead :: new |})
  | inr t =>
      if is_empty t then (Responded canned_response, after_transcribe w new)
      else
        match generate_content svc (history w ++ [user_turn t]) with
        | inl e =>
            (Responded (error_response e),
             {| history := history w ++ [user_turn t];
                console := console w ++ [customer_line t; error_line e];
                calls := calls w ++ CallRead :: new ++ [CallSendMessage t] |})
        | inr reply =>
            let w' := fun tail =>
              {| history := history w ++ [user_turn t; model_turn reply];
                 console := console w ++ [customer_line t; chefbot_line reply]
                                      ++ action_lines reply ++ tail;
                 calls := calls w ++ CallRead :: new ++
                          [CallSendMessage t;
                           CallSynthesizeSpeech reply tts_voice tts_audio_config] |} in
            match synthesize_speech svc reply tts_voice tts_audio_config with
            | inl e => (Responded (error_response e), w' [error_line e])
            | inr audio_content =>
                (Responded (send_file audio_content "audio/mpeg"), w' [])
            end
        end
  end.

(** Further collaborators, for running the handler. *)
Module Scenario.

(** A recognition answer whose second result has no alternative. *)
Definition ragged : list SpeechRecognitionResult :=
  [Demo.segment ["hello"]; Demo.segment []].

Definition ragged_stt : Services :=
  Demo.services (inr ragged) (inr Demo.reply_text) (inr Demo.mp3).

(** A reply that confirms a booking in capitals. *)
Definition shouted_reply : string := "Your BOOKING CONFIRMED for 7 PM.".

End Scenario.

(** ** Facts about the string operations *)

Section StringFacts.

Lemma split_not_nil sep s : split sep s <> [].
Proof.
  destruct s as [|c rest]; simpl; [discriminate|].
  destruct (Ascii.eqb c sep); [discriminate|].
  destruct (split sep rest); discriminate.
Qed.

Lemma last_item_cons w ws : ws <> [] -> last_item (w :: ws) = last_item ws.
Proof. destruct ws; [congruence | reflexivity]. Qed.

(** Without the separator, [split] returns the string itself. *)
Lemma split_no_sep sep s : has_char sep s = false -> split sep s = [s].
Proof.
  induction s as [|c rest IH]; simpl; [reflexivity|].
  intros H. apply orb_false_iff in H as [Hc Hrest].
  rewrite Hc, (IH Hrest). reflexivity.
Qed.

(** With the separator, [split] returns at least two pieces. *)
Lemma split_with_sep sep s :
  has_char sep s = true -> exists w1 w2 ws, split sep s = w1 :: w2 :: ws.
Proof.
  induction s as [|c rest IH]; simpl; [discriminate|].
  destruct (Ascii.eqb c sep) eqn:Hc; simpl.
  - intros _. destruct (split sep rest) as [|w ws] eqn:Hs.
    + now apply split_not_nil in Hs.
    + now exists EmptyString, w, ws.
  - intros H. destruct (IH H) as (w1 & w2 & ws & ->).
    now exists (String c w1), w2, ws.
Qed.

Lemma last_item_split_no_sep sep s :
  has_char sep (last_item (split sep s)) = false.
Proof.
  induction s as [|c rest IH]; simpl; [reflexivity|].
  destruct (Ascii.eqb c sep) eqn:Hc.
  - rewrite last_item_cons by apply split_not_nil. exact IH.
  - destruct (split sep rest) as [|w [|w2 ws]] eqn:Hs.
    + now apply split_not_nil in Hs.
    + unfold last_item in *. simpl in *. now rewrite Hc.
    + exact IH.
Qed.

(** With the separator, the last piece is what follows its last
    occurrence. *)
Lemma last_item_split_suffix sep s :
  has_char sep s = true ->
  exists pre, s = (pre ++ String sep (last_item (split sep s)))%string.
Proof.
  induction s as [|c rest IH]; simpl; [discriminate|].
  destruct (Ascii.eqb c sep) eqn:Hc; simpl.
  - intros _. apply Ascii.eqb_eq in Hc. subst c.
    rewrite last_item_cons by apply split_not_nil.
    destruct (has_char sep rest) eqn:Hrest.
    + destruct (IH eq_refl) as [pre Hpre].
      exists (String sep pre). simpl. now rewrite <- Hpre.
    + rewrite (split_no_sep _ _ Hrest). now exists EmptyString.
  - intros H. destruct (IH H) as [pre Hpre].
    destruct (split_with_sep _ _ H) as (w1 & w2 & ws & Hs).
    rewrite Hs in *. exists (String c pre).
    change (last_item (String c w1 :: w2 :: ws)) with (last_item (w1 :: w2 :: ws)).
    simpl. now rewrite <- Hpre.
Qed.

Lemma lower_app a b : lower (a ++ b) = (lower a ++ lower b)%string.
Proof. induction a as [|c a IH]; simpl; [reflexivity | now rewrite IH]. Qed.

Lemma prefix_app n post : String.prefix n (n ++ post) = true.
Proof.
  induction n as [|c n IH]; simpl; [now destruct post|].
  destruct (ascii_dec c c); [exact IH | congruence].
Qed.

Lemma prefix_inv n h :
  String.prefix n h = true -> exists post, h = (n ++ post)%string.
Proof.
  revert h. induction n as [|c n IH]; intros h H.
  - now exists h.
  - destruct h as [|d h]; simpl in H; [discriminate|].
    destruct (ascii_dec c d); [subst d | discriminate].
    destruct (IH _ H) as [post ->]. now exists post.
Qed.

(** [contains] decides occurrence. *)
Lemma contains_spec n h : contains n h = true <-> is_substring n h.
Proof.
  split.
  - induction h as [|c h IH]; cbn [contains]; intros H.
    + rewrite orb_false_r in H. destruct (prefix_inv _ _ H) as [post ->].
      now exists EmptyString, post.
    + apply orb_true_iff in H as [H|H].
      * destruct (prefix_inv _ _ H) as [post ->]. now exists EmptyString, post.
      * destruct (IH H) as (pre & post & ->). now exists (String c pre), post.
  - intros (pre & post & ->). induction pre as [|c pre IH].
    + change (EmptyString ++ n ++ post)%string with (n ++ post)%string.
      destruct (n ++ post)%string eqn:E; cbn [contains];
        rewrite <- E, prefix_app; reflexivity.
    + cbn [contains append]. rewrite IH. apply orb_true_r.
Qed.

Lemma contains_false n h : contains n h = false <-> ~ is_substring n h.
Proof.
  rewrite <- contains_spec. destruct (contains n h); split; congruence.
Qed.

Lemma app_assoc_str a b c : ((a ++ b) ++ c = a ++ (b ++ c))%string.
Proof. induction a as [|x a IH]; simpl; [reflexivity | now rewrite IH]. Qed.

Lemma is_empty_true s : is_empty s = true <-> s = EmptyString.
Proof. destruct s; simpl; split; congruence. Qed.

Lemma is_empty_false s : is_empty s = false <-> s <> EmptyString.
Proof. destruct s; simpl; split; congruence. Qed.

(** The operations behind [mimetype] never introduce a character that
    the header did not have before its first [;]. *)
Lemma before_first_no_sep sep s : has_char sep (before_first sep s) = false.
Proof.
  induction s as [|c rest IH]; simpl; [reflexivity|].
  destruct (Ascii.eqb c sep) eqn:Hc; simpl; [reflexivity|].
  now rewrite Hc.
Qed.

Lemma lstrip_keeps_absent c s : has_char c s = false -> has_char c (lstrip s) = false.
Proof.
  induction s as [|d rest IH]; simpl; [reflexivity|].
  intros H. destruct (is_space d); [|exact H].
  apply orb_false_iff in H as [_ H]. auto.
Qed.

Lemma rstrip_keeps_absent c s : has_char c s = false -> has_char c (rstrip s) = false.
Proof.
  induction s as [|d rest IH]; simpl; [reflexivity|].
  intros H. apply orb_false_iff in H as [Hd H]. specialize (IH H).
  destruct (rstrip rest) eqn:E.
  - destruct (is_space d); simpl; [reflexivity | now rewrite Hd].
  - simpl in *. now rewrite Hd, IH.
Qed.

Lemma lower_char_semicolon d : Ascii.eqb (lower_char d) ";" = Ascii.eqb d ";".
Proof.
  destruct d as [[] [] [] [] [] [] [] []]; reflexivity.
Qed.

Lemma lower_keeps_semicolon_absent s :
  has_char ";" s = false -> has_char ";" (lower s) = false.
Proof.
  induction s as [|d rest IH]; simpl; [reflexivity|].
  intros H. apply orb_false_iff in H as [Hd H].
  now rewrite lower_char_semicolon, Hd, IH.
Qed.

(** A piece of [split] only has characters of the string split. *)
Lemma last_item_split_keeps_absent c sep s :
  has_char c s = false -> has_char c (last_item (split sep s)) = false.
Proof.
  induction s as [|d rest IH]; simpl; [reflexivity|].
  intros H. apply orb_false_iff in H as [Hd H]. specialize (IH H).
  destruct (Ascii.eqb d sep).
  - rewrite last_item_cons by apply split_not_nil. exact IH.
  - destruct (split sep rest) as [|w [|w2 ws]] eqn:Hs.
    + now apply split_not_nil in Hs.
    + unfold last_item in *. simpl in *. now rewrite Hd.
    + exact IH.
Qed.

End StringFacts.

(** ** How the stages of the handler run *)

Section Stages.

Variable svc : Services.

Lemma join_cons t ts : join (t :: ts) = (t ++ join ts)%string.
Proof.
  unfold join. destruct ts as [|t' ts]; simpl.
  - induction t as [|c t IH]; simpl; [reflexivity | now rewrite <- IH].
  - reflexivity.
Qed.

(** The loop of lines 109-111 against the joined top transcripts. *)
Lemma concat_transcripts_acc results : forall acc,
  concat_transcripts svc acc results =
  match top_transcripts results with
  | Some ts => inr (acc ++ join ts)%string
  | None => inl (index_error svc)
  end.
Proof.
  induction results as [|r rest IH]; intros acc; simpl.
  - f_equal. induction acc as [|c acc IHa]; simpl; [reflexivity | now rewrite <- IHa].
  - unfold top_transcript. destruct (alternatives r) as [|top others]; [reflexivity|].
    rewrite IH. destruct (top_transcripts rest) as [ts|]; [|reflexivity].
    now rewrite join_cons, app_assoc_str.
Qed.

Lemma concat_transcripts_run results :
  concat_transcripts svc EmptyString results =
  match top_transcripts results with
  | Some ts => inr (join ts)
  | None => inl (index_error svc)
  end.
Proof. apply concat_transcripts_acc. Qed.

(** [transcribe] answers what the chained collaborators answer, leaves
    history and console alone and makes no chat or synthesis call. *)
Lemma transcribe_run f b w :
  exists new,
    transcribe svc f b w =
      (sum_bind (recognized svc f b) (concat_transcripts svc EmptyString),
       {| history := history w; console := console w; calls := calls w ++ new |})
    /\ Forall (fun c => is_chat_or_tts c = false) new.
Proof.
  unfold transcribe, recognized, bind, invoke, lift, sum_bind. simpl.
  destruct (from_file svc b (format_hint f)) as [e|s1].
  { eexists; split; [reflexivity | repeat constructor]. }
  destruct (set_channels svc s1 1%Z) as [e|s2].
  { rewrite <- app_assoc. eexists; split; [reflexivity | repeat constructor]. }
  destruct (set_frame_rate svc s2 16000%Z) as [e|s3].
  { rewrite <- !app_assoc. eexists; split; [reflexivity | repeat constructor]. }
  destruct (set_sample_width svc s3 2%Z) as [e|s4].
  { rewrite <- !app_assoc. eexists; split; [reflexivity | repeat constructor]. }
  destruct (export svc s4 "wav") as [e|wav].
  { rewrite <- !app_assoc. eexists; split; [reflexivity | repeat constructor]. }
  rewrite <- !app_assoc.
  destruct (recognize svc stt_config wav) as [e|results];
    (eexists; split; [reflexivity | repeat constructor]).
Qed.

Lemma print_all_run lines : forall w,
  print_all lines w =
    (inr tt, {| history := history w; console := console w ++ lines;
                calls := calls w |}).
Proof.
  induction lines as [|l rest IH]; intros w; simpl.
  - unfold ret. rewrite app_nil_r. now destruct w.
  - unfold bind, print. rewrite IH. simpl. now rewrite <- app_assoc.
Qed.

Lemma respond_empty w :
  respond svc EmptyString w =
    (inr (jsonify [("text", NOT_CAUGHT_TEXT); ("audio", EmptyString)] 200), w).
Proof. reflexivity. Qed.

Lemma respond_chat_raises t e w :
  t <> EmptyString ->
  generate_content svc (history w ++ [user_turn t]) = inl e ->
  respond svc t w =
    (inl e, {| history := history w ++ [user_turn t];
               console := console w ++ [customer_line t];
               calls := calls w ++ [CallSendMessage t] |}).
Proof.
  intros Ht Hg. unfold respond. apply is_empty_false in Ht. rewrite Ht.
  unfold bind, print, send_message. simpl.
  unfold user_turn in Hg. now rewrite Hg.
Qed.

Lemma respond_chat_answers t reply w :
  t <> EmptyString ->
  generate_content svc (history w ++ [user_turn t]) = inr reply ->
  respond svc t w =
    (match synthesize_speech svc reply tts_voice tts_audio_config with
     | inl e => inl e
     | inr audio_content => inr (send_file audio_content "audio/mpeg")
     end,
     {| history := history w ++ [user_turn t; model_turn reply];
        console := console w ++ [customer_line t; chefbot_line reply]
                             ++ action_lines reply;
        calls := calls w ++ [CallSendMessage t;
                             CallSynthesizeSpeech reply tts_voice tts_audio_config] |}).
Proof.
  intros Ht Hg. unfold respond. apply is_empty_false in Ht. rewrite Ht.
  unfold bind, print, send_message. simpl.
  unfold user_turn in Hg. rewrite Hg. rewrite print_all_run.
  unfold invoke, ret. simpl. rewrite <- !app_assoc. simpl.
  now destruct (synthesize_speech svc reply tts_voice tts_audio_config).
Qed.

End Stages.

Section Handler.

Variable svc : Services.

Lemma files_mem_get name fs :
  files_mem name fs = false <-> files_get name fs = None.
Proof. unfold files_mem. destruct (files_get name fs); split; congruence. Qed.

Lemma process_audio_enter req w f b :
  files_get "audio" (files req) = Some f ->
  read f = inr b ->
  process_audio svc req w =
    match try_body svc f b (after_read w) with
    | (inr response, w2) => (Responded response, w2)
    | (inl e, w2) =>
        (Responded (jsonify [("error", str e)] 500),
         {| history := history w2;
            console := console w2 ++ [("An error occurred: " ++ str e)%string];
            calls := calls w2 |})
    end.
Proof.
  intros Hget Hread. unfold process_audio, invoke. rewrite Hget, Hread.
  fold (after_read w).
  destruct (try_body svc f b (after_read w)) as [[e|r] w2]; reflexivity.
Qed.

(** The [try] block: transcription, then [respond] on its transcript. *)
Lemma try_body_run f b w :
  exists new,
    Forall (fun c => is_chat_or_tts c = false) new /\
    try_body svc f b (after_read w) =
      match sum_bind (recognized svc f b) (concat_transcripts svc EmptyString) with
      | inl e => (inl e, after_transcribe w new)
      | inr t => respond svc t (after_transcribe w new)
      end.
Proof.
  destruct (transcribe_run svc f b (after_read w)) as (new & Hrun & Hnew).
  exists new. split; [exact Hnew|].
  unfold try_body, bind. rewrite Hrun.
  unfold after_transcribe, after_read. simpl. rewrite <- app_assoc. simpl.
  destruct (sum_bind _ _); reflexivity.
Qed.

Lemma transcript_of_results f b results ts :
  recognized svc f b = inr results ->
  top_transcripts results = Some ts ->
  sum_bind (recognized svc f b) (concat_transcripts svc EmptyString) = inr (join ts).
Proof.
  intros Hrec Htop. rewrite Hrec. simpl.
  now rewrite concat_transcripts_run, Htop.
Qed.

(** Every way a request with a readable [audio] part can run. *)
Lemma process_audio_run req w f b :
  files_get "audio" (files req) = Some f ->
  read f = inr b ->
  exists new,
    Forall (fun c => is_chat_or_tts c = false) new /\
    process_audio svc req w =
      match sum_bind (recognized svc f b) (concat_transcripts svc EmptyString) with
      | inl e =>
          (Responded (error_response e),
           {| history := history w;
              console := console w ++ [error_line e];
              calls := calls w ++ CallRead :: new |})
      | inr t =>
          if is_empty t then (Responded canned_response, after_transcribe w new)
          else
            match generate_content svc (history w ++ [user_turn t]) with
            | inl e =>
                (Responded (error_response e),
                 {| history := history w ++ [user_turn t];
                    console := console w ++ [customer_line t; error_line e];
                    calls := calls w ++ CallRead :: new ++ [CallSendMessage t] |})
            | inr reply =>
                let w' := fun tail =>
                  {| history := history w ++ [user_turn t; model_turn reply];
                     console := console w ++ [customer_line t; chefbot_line reply]
                                          ++ action_lines reply ++ tail;
                     calls := calls w ++ CallRead :: new ++
                              [CallSendMessage t;
                               CallSynthesizeSpeech reply tts_voice tts_audio_config] |} in
                match synthesize_speech svc reply tts_voice tts_audio_config with
                | inl e => (Responded (error_response e), w' [error_line e])
                | inr audio_content =>
                    (Responded (send_file audio_content "audio/mpeg"), w' [])
                end
            end
      end.
Proof.
  intros Hget Hread.
  rewrite (process_audio_enter req w f b Hget Hread).
  destruct (try_body_run f b w) as (new & Hnew & ->).
  exists new. split; [exact Hnew|].
  destruct (sum_bind _ _) as [e|t]; [reflexivity|].
  destruct (is_empty t) eqn:Ht.
  { apply is_empty_true in Ht. subst t. now rewrite respond_empty. }
  apply is_empty_false in Ht.
  destruct (generate_content svc (history w ++ [user_turn t])) as [e|reply] eqn:Hg.
  - rewrite (respond_chat_raises svc t e (after_transcribe w new) Ht Hg). simpl.
    unfold error_response, error_line. now rewrite <- !app_assoc.
  - rewrite (respond_chat_answers svc t reply (after_transcribe w new) Ht Hg). simpl.
    destruct (synthesize_speech svc reply tts_voice tts_audio_config); simpl;
      unfold error_response, error_line;
      rewrite <- ?app_assoc; simpl; rewrite <- ?app_assoc, ?app_nil_r; reflexivity.
Qed.

End Handler.

(** ** The claims *)

Section Claims.

Variable svc : Services.

(** C4. A request whose multipart form has no field named [audio] gets
    HTTP 400 with the body [{"error": "No audio file provided"}], and the
    world is left exactly as it was: nothing is read, called or printed. *)
Theorem missing_audio_field_rejected (req : Request) (w : World) :
  files_mem "audio" (files req) = false ->
  process_audio svc req w =
    (Responded {| status_code := 400;
                  resp_mimetype := "application/json";
                  resp_body := Json [("error", "No audio file provided")] |},
     w).
Proof.
  intros Hmem. apply files_mem_get in Hmem.
  unfold process_audio. now rewrite Hmem.
Qed.

(** C3. When the joined top transcripts of the recognition answer are the
    empty string, the handler returns HTTP 200 with the JSON body
    whose [text] is the canned sentence and whose [audio] is the empty
    string, a JSON response and not an audio one, and prints nothing. *)
Theorem empty_transcript_canned_reply (req : Request) (w : World)
    (f : FileStorage) (b : bytes) (results : list SpeechRecognitionResult)
    (ts : list string) :
  files_get "audio" (files req) = Some f ->
  read f = inr b ->
  recognized svc f b = inr results ->
  top_transcripts results = Some ts ->
  join ts = EmptyString ->
  exists w',
    process_audio svc req w =
      (Responded {| status_code := 200;
                    resp_mimetype := "application/json";
                    resp_body := Json [("text", "I didn't catch that. Could you please repeat?");
                                       ("audio", EmptyString)] |},
       w')
    /\ console w' = console w.
Proof.
  intros Hget Hread Hrec Htop Hjoin.
  rewrite (process_audio_enter svc req w f b Hget Hread).
  destruct (try_body_run svc f b w) as (new & _ & ->).
  rewrite (transcript_of_results svc f b results ts Hrec Htop), Hjoin.
  rewrite respond_empty. eexists. split; reflexivity.
Qed.

(** C8. On the empty-transcript path the dialogue history is unchanged and
    no call of the chat-completion or speech-synthesis service is made. *)
Theorem empty_transcript_leaves_session (req : Request) (w : World)
    (f : FileStorage) (b : bytes) (results : list SpeechRecognitionResult)
    (ts : list string) :
  files_get "audio" (files req) = Some f ->
  read f = inr b ->
  recognized svc f b = inr results ->
  top_transcripts results = Some ts ->
  join ts = EmptyString ->
  exists new,
    history (snd (process_audio svc req w)) = history w
    /\ calls (snd (process_audio svc req w)) = calls w ++ new
    /\ Forall (fun c => is_chat_or_tts c = false) new.
Proof.
  intros Hget Hread Hrec Htop Hjoin.
  rewrite (process_audio_enter svc req w f b Hget Hread).
  destruct (try_body_run svc f b w) as (new & Hnew & ->).
  rewrite (transcript_of_results svc f b results ts Hrec Htop), Hjoin.
  rewrite respond_empty. exists (CallRead :: new). simpl.
  repeat split. constructor; [reflexivity | exact Hnew].
Qed.

Lemma no_chat_call_in new t :
  Forall (fun c => is_chat_or_tts c = false) new -> ~ In (CallSendMessage t) new.
Proof.
  intros Hall Hin. rewrite Forall_forall in Hall.
  specialize (Hall _ Hin). discriminate.
Qed.

(** C7. The text handed to the dialogue session is the join, with no
    separator and in result order, of the transcript of the first
    alternative of each result: the loop computes exactly that join, any
    chat call the request makes carries it, and when it is not empty the
    request does make that call. *)
Theorem forwarded_transcript_is_join_of_top_alternatives (req : Request)
    (w : World) (f : FileStorage) (b : bytes)
    (results : list SpeechRecognitionResult) :
  files_get "audio" (files req) = Some f ->
  read f = inr b ->
  recognized svc f b = inr results ->
  concat_transcripts svc EmptyString results =
    match top_transcripts results with
    | Some ts => inr (join ts)
    | None => inl (index_error svc)
    end
  /\ (forall t, In (CallSendMessage t) (calls (snd (process_audio svc req w))) ->
        In (CallSendMessage t) (calls w) \/
        exists ts, top_transcripts results = Some ts /\ t = join ts)
  /\ (forall ts, top_transcripts results = Some ts -> join ts <> EmptyString ->
        In (CallSendMessage (join ts)) (calls (snd (process_audio svc req w)))).
Proof.
  intros Hget Hread Hrec.
  destruct (process_audio_run svc req w f b Hget Hread) as (new & Hnew & Hrun).
  rewrite Hrun, Hrec. cbn [sum_bind]. rewrite concat_transcripts_run.
  split; [reflexivity|].
  assert (Hbase : forall t, In (CallSendMessage t) (calls w ++ CallRead :: new) ->
                            In (CallSendMessage t) (calls w)).
  { intros t Hin. apply in_app_or in Hin as [Hin|[Hin|Hin]];
      [exact Hin | discriminate | now apply no_chat_call_in in Hin]. }
  destruct (top_transcripts results) as [ts|]; split.
  - intros t Hin. destruct (is_empty (join ts)); [left; now apply Hbase|].
    assert (Hsplit : In (CallSendMessage t) (calls w ++ CallRead :: new) \/
                     t = join ts).
    { destruct (generate_content svc _);
        [|destruct (synthesize_speech svc _ _ _)]; simpl in Hin;
        change (calls w ++ CallRead :: new ++ ?l)
          with (calls w ++ (CallRead :: new) ++ l) in Hin;
        rewrite app_assoc in Hin;
        apply in_app_or in Hin as [Hin|Hin]; auto;
        simpl in Hin; right; intuition congruence. }
    destruct Hsplit as [Hin'| ->]; [left; now apply Hbase | right; now exists ts].
  - intros ts' Heq Hne. injection Heq as <-.
    apply is_empty_false in Hne. rewrite Hne.
    destruct (generate_content svc _);
      [|destruct (synthesize_speech svc _ _ _)]; simpl;
      apply in_or_app; right; right; apply in_or_app; right; left; reflexivity.
  - intros t Hin. left. now apply Hbase.
  - intros ts Heq. discriminate.
Qed.

(** C5. Before the first request the history is the persona-seed pair, a
    [user] entry holding the system prompt and a [model] entry holding the
    greeting; and every request answered with the audio response extends
    the history by exactly two entries: the [user] turn holding the
    transcript of this request (the join of the top transcripts of the
    results recognition returned for its upload), then the [model] turn
    holding the reply the chat service gave to it. *)
Theorem history_grows_by_two_on_success :
  history initial_world = [user_turn SYSTEM_PROMPT; model_turn GREETING]
  /\ forall (req : Request) (w w' : World) (r : Response),
       process_audio svc req w = (Responded r, w') ->
       is_audio_response r ->
       exists f b results ts reply,
         files_get "audio" (files req) = Some f
         /\ read f = inr b
         /\ recognized svc f b = inr results
         /\ top_transcripts results = Some ts
         /\ join ts <> EmptyString
         /\ generate_content svc (history w ++ [user_turn (join ts)]) = inr reply
         /\ history w' = history w ++ [user_turn (join ts); model_turn reply]
         /\ length (history w') = length (history w) + 2.
Proof.
  split; [reflexivity|].
  intros req w w' r Hrun [Hmime _].
  destruct (files_get "audio" (files req)) as [f|] eqn:Hget.
  2:{ unfold process_audio in Hrun. rewrite Hget in Hrun.
      injection Hrun as <- _. discriminate. }
  destruct (read f) as [e|b] eqn:Hread.
  { unfold process_audio, invoke in Hrun. rewrite Hget, Hread in Hrun. discriminate. }
  destruct (process_audio_run svc req w f b Hget Hread) as (new & _ & Heq).
  rewrite Heq in Hrun. clear Heq.
  destruct (recognized svc f b) as [e|results] eqn:Hrec; cbn [sum_bind] in Hrun.
  { injection Hrun as <- _. discriminate. }
  rewrite concat_transcripts_run in Hrun.
  destruct (top_transcripts results) as [ts|] eqn:Htop.
  2:{ injection Hrun as <- _. discriminate. }
  destruct (is_empty (join ts)) eqn:Hne.
  { injection Hrun as <- _. discriminate. }
  apply is_empty_false in Hne.
  destruct (generate_content svc (history w ++ [user_turn (join ts)]))
    as [e|reply] eqn:Hg.
  { injection Hrun as <- _. discriminate. }
  destruct (synthesize_speech svc reply tts_voice tts_audio_config) as [e|audio].
  { injection Hrun as <- _. discriminate. }
  injection Hrun as _ <-. exists f, b, results, ts, reply. simpl.
  repeat (split; [first [assumption | reflexivity]|]).
  rewrite length_app. reflexivity.
Qed.

(** C9. When speech synthesis raises after the chat call answered, the
    request returns the 500 error response and the history still ends with
    the two turns the chat call appended: nothing is rolled back. *)
Theorem failure_after_chat_keeps_turns (req : Request) (w : World)
    (f : FileStorage) (b : bytes) (results : list SpeechRecognitionResult)
    (ts : list string) (reply : string) (e : Exc) :
  files_get "audio" (files req) = Some f ->
  read f = inr b ->
  recognized svc f b = inr results ->
  top_transcripts results = Some ts ->
  join ts <> EmptyString ->
  generate_content svc (history w ++ [user_turn (join ts)]) = inr reply ->
  synthesize_speech svc reply tts_voice tts_audio_config = inl e ->
  exists w',
    process_audio svc req w =
      (Responded {| status_code := 500;
                    resp_mimetype := "application/json";
                    resp_body := Json [("error", str e)] |},
       w')
    /\ history w' = history w ++ [user_turn (join ts); model_turn reply]
    /\ length (history w') = length (history w) + 2.
Proof.
  intros Hget Hread Hrec Htop Hne Hg Htts.
  destruct (process_audio_run svc req w f b Hget Hread) as (new & _ & ->).
  rewrite (transcript_of_results svc f b results ts Hrec Htop).
  apply is_empty_false in Hne. rewrite Hne, Hg, Htts.
  eexists. split; [reflexivity|]. simpl. split; [reflexivity|].
  rewrite length_app. reflexivity.
Qed.

(** C1, as the handler has it. A request with a readable [audio] part is
    always answered, in one of exactly three shapes: HTTP 200 with an
    [audio/mpeg] body; HTTP 200 with the JSON object holding the canned
    [text] and an empty [audio]; or, when a step of the [try] block raised,
    HTTP 500 with a JSON object holding only an [error] field. *)
Theorem response_is_audio_text_or_error (req : Request) (w : World)
    (f : FileStorage) (b : bytes) :
  files_get "audio" (files req) = Some f ->
  read f = inr b ->
  exists r w',
    process_audio svc req w = (Responded r, w')
    /\ ((status_code r = 200 /\ is_audio_response r)
        \/ (status_code r = 200
            /\ resp_body r = Json [("text", NOT_CAUGHT_TEXT); ("audio", EmptyString)]
            /\ has_json_field "text" r)
        \/ (exists e, raises_in_try svc f b (history w) e
                      /\ status_code r = 500
                      /\ resp_body r = Json [("error", str e)])).
Proof.
  intros Hget Hread.
  destruct (process_audio_run svc req w f b Hget Hread) as (new & _ & ->).
  destruct (recognized svc f b) as [e|results] eqn:Hrec; cbn [sum_bind].
  { do 2 eexists. split; [reflexivity|]. right; right. exists e.
    split; [now apply raise_recognize | split; reflexivity]. }
  rewrite concat_transcripts_run.
  destruct (top_transcripts results) as [ts|] eqn:Htop.
  2:{ do 2 eexists. split; [reflexivity|]. right; right. exists (index_error svc).
      split; [now apply (raise_index _ _ _ _ _ results) | split; reflexivity]. }
  destruct (is_empty (join ts)) eqn:Hne.
  { do 2 eexists. split; [reflexivity|]. right; left.
    split; [reflexivity | split; [reflexivity|]].
    exists [("text", NOT_CAUGHT_TEXT); ("audio", EmptyString)], NOT_CAUGHT_TEXT.
    split; [reflexivity | now left]. }
  apply is_empty_false in Hne.
  destruct (generate_content svc _) as [e|reply] eqn:Hg.
  { do 2 eexists. split; [reflexivity|]. right; right. exists e.
    split; [now apply (raise_send_message _ _ _ _ _ results ts) | split; reflexivity]. }
  destruct (synthesize_speech svc _ _ _) as [e|audio] eqn:Htts.
  { do 2 eexists. split; [reflexivity|]. right; right. exists e.
    split; [now apply (raise_synthesize_speech _ _ _ _ _ results ts reply)
           | split; reflexivity]. }
  do 2 eexists. split; [reflexivity|]. left.
  split; [reflexivity | split; [reflexivity | now exists audio]].
Qed.

(** C2, as the handler has it. Any exception raised by a step inside the
    [try] block (decoding and normalising the upload, the recognition call,
    taking the first alternative, the chat call, the synthesis call) is
    caught: the request is answered with HTTP 500 and the JSON body holding
    [str(e)] under [error], and the last console line reports it. *)
Theorem exception_in_try_gives_500 (req : Request) (w : World)
    (f : FileStorage) (b : bytes) (e : Exc) :
  files_get "audio" (files req) = Some f ->
  read f = inr b ->
  raises_in_try svc f b (history w) e ->
  exists w',
    process_audio svc req w =
      (Responded {| status_code := 500;
                    resp_mimetype := "application/json";
                    resp_body := Json [("error", str e)] |},
       w')
    /\ last (console w') EmptyString = error_line e.
Proof.
  intros Hget Hread Hraise.
  destruct (process_audio_run svc req w f b Hget Hread) as (new & _ & ->).
  destruct Hraise as [Hrec | results Hrec Htop -> | results ts Hrec Htop Hne Hg
                     | results ts reply Hrec Htop Hne Hg Htts].
  - rewrite Hrec. cbn [sum_bind]. eexists. split; [reflexivity|].
    cbn [console]. apply last_last.
  - rewrite Hrec. cbn [sum_bind]. rewrite concat_transcripts_run, Htop.
    eexists. split; [reflexivity|]. cbn [console]. apply last_last.
  - rewrite (transcript_of_results svc f b results ts Hrec Htop).
    apply is_empty_false in Hne. rewrite Hne, Hg.
    eexists. split; [reflexivity|]. cbn [console].
    change [customer_line (join ts); error_line e]
      with ([customer_line (join ts)] ++ [error_line e]).
    rewrite app_assoc. apply last_last.
  - rewrite (transcript_of_results svc f b results ts Hrec Htop).
    apply is_empty_false in Hne. rewrite Hne, Hg, Htts.
    eexists. split; [reflexivity|]. cbn [console].
    rewrite !app_assoc. apply last_last.
Qed.

Lemma customer_line_not_action t : customer_line t <> ORDER_LINE.
Proof. unfold customer_line, ORDER_LINE. simpl. discriminate. Qed.

Lemma chefbot_line_not_action t : chefbot_line t <> ORDER_LINE.
Proof. unfold chefbot_line, ORDER_LINE. simpl. discriminate. Qed.

Lemma order_line_printed reply :
  In ORDER_LINE (action_lines reply) <-> contains "order placed" (lower reply) = true.
Proof.
  unfold action_lines.
  destruct (contains "order placed" (lower reply));
    destruct (_ || _); simpl; split; intros H; auto; try discriminate;
    intuition discriminate.
Qed.

Lemma booking_line_printed reply :
  In BOOKING_LINE (action_lines reply) <->
  contains "table confirmed" (lower reply) || contains "booking confirmed" (lower reply)
  = true.
Proof.
  unfold action_lines.
  destruct (contains "order placed" (lower reply));
    destruct (_ || _); simpl; split; intros H; auto; try discriminate;
    intuition discriminate.
Qed.

Lemma order_line_count reply :
  count_occ string_dec (action_lines reply) ORDER_LINE =
  if contains "order placed" (lower reply) then 1 else 0.
Proof.
  unfold action_lines.
  destruct (contains "order placed" (lower reply));
    destruct (_ || _); reflexivity.
Qed.

(** Lowercasing turns an occurrence of [Order placed.] into one of
    [order placed]. *)
Lemma order_placed_lowered reply :
  is_substring "Order placed." reply -> is_substring "order placed" (lower reply).
Proof.
  intros (pre & post & ->).
  exists (lower pre), ("." ++ lower post)%string.
  rewrite !lower_app. reflexivity.
Qed.

(** C6. The action logger tests the lowercased reply for [order placed] and
    for [table confirmed] or [booking confirmed]: of the lines a request
    prints once the chat call answered, the order line is there exactly
    when the first phrase occurs and the booking line exactly when one of
    the other two does; a reply containing [Order placed.] prints the order
    line exactly once; a reply with none of the three phrases prints no
    action line. *)
Theorem action_logger_triggers (t reply : string) (w : World) :
  t <> EmptyString ->
  generate_content svc (history w ++ [user_turn t]) = inr reply ->
  let printed := [customer_line t; chefbot_line reply] ++ action_lines reply in
  console (snd (respond svc t w)) = console w ++ printed
  /\ (In ORDER_LINE (action_lines reply) <->
      is_substring "order placed" (lower reply))
  /\ (In BOOKING_LINE (action_lines reply) <->
      is_substring "table confirmed" (lower reply) \/
      is_substring "booking confirmed" (lower reply))
  /\ (is_substring "Order placed." reply ->
      count_occ string_dec printed ORDER_LINE = 1)
  /\ (~ is_substring "order placed" (lower reply) ->
      ~ is_substring "table confirmed" (lower reply) ->
      ~ is_substring "booking confirmed" (lower reply) ->
      action_lines reply = []).
Proof.
  intros Ht Hg printed. subst printed.
  rewrite (respond_chat_answers svc t reply w Ht Hg).
  split; [reflexivity|].
  split; [rewrite order_line_printed; apply contains_spec|].
  split.
  { rewrite booking_line_printed, orb_true_iff, !contains_spec. reflexivity. }
  split.
  - intros Hsub. apply order_placed_lowered, contains_spec in Hsub.
    cbn [app count_occ].
    destruct (string_dec (customer_line t) ORDER_LINE) as [E|_];
      [now apply customer_line_not_action in E|].
    destruct (string_dec (chefbot_line reply) ORDER_LINE) as [E|_];
      [now apply chefbot_line_not_action in E|].
    now rewrite order_line_count, Hsub.
  - intros Ho Hb1 Hb2. apply contains_false in Ho, Hb1, Hb2.
    unfold action_lines. now rewrite Ho, Hb1, Hb2.
Qed.

End Claims.

(** C10, as the handler has it. The format hint is what follows the last
    [/] of the upload's [mimetype] attribute (all of it when it has no
    [/]); that attribute is the declared content type without its
    parameters, so the hint never carries a [;] parameter suffix. *)
Theorem format_hint_after_last_slash (f : FileStorage) :
  has_char "/" (format_hint f) = false
  /\ (has_char "/" (mimetype f) = false -> format_hint f = mimetype f)
  /\ (has_char "/" (mimetype f) = true ->
      exists pre, mimetype f = (pre ++ "/" ++ format_hint f)%string)
  /\ has_char ";" (format_hint f) = false.
Proof.
  unfold format_hint. repeat split.
  - apply last_item_split_no_sep.
  - intros H. now rewrite (split_no_sep _ _ H).
  - intros H. apply (last_item_split_suffix _ _ H).
  - apply last_item_split_keeps_absent. unfold mimetype, strip.
    apply lower_keeps_semicolon_absent, rstrip_keeps_absent, lstrip_keeps_absent,
      before_first_no_sep.
Qed.

(** ** The claims that fail as stated, at concrete requests *)

(** C1 fails as stated: when the recognition service raises, the request
    has its [audio] part and the response is neither an audio body nor a
    JSON object with a [text] field. *)
Lemma error_response_has_neither_audio_nor_text :
  files_mem "audio" (files (Demo.request_with Demo.webm)) = true
  /\ fst (process_audio Demo.stt_down (Demo.request_with Demo.webm) initial_world)
     = Responded (error_response Demo.unavailable)
  /\ ~ (is_audio_response (error_response Demo.unavailable)
        \/ has_json_field "text" (error_response Demo.unavailable)).
Proof.
  split; [reflexivity|]. split; [reflexivity|].
  intros [[Hmime _] | (d & v & Hbody & Hin)].
  - discriminate.
  - injection Hbody as <-. destruct Hin as [Hin|[]]. discriminate.
Qed.

(** C2 fails as stated: an exception raised while the uploaded bytes are
    read leaves the handler uncaught; no JSON error response is built and
    nothing is printed. *)
Lemma read_failure_escapes_handler :
  files_mem "audio" (files (Demo.request_with Demo.broken_upload)) = true
  /\ read Demo.broken_upload = inl (mkExc "OSError" "stream closed")
  /\ fst (process_audio Demo.happy (Demo.request_with Demo.broken_upload) initial_world)
     = Propagated (mkExc "OSError" "stream closed")
  /\ fst (process_audio Demo.happy (Demo.request_with Demo.broken_upload) initial_world)
     <> Responded (error_response (mkExc "OSError" "stream closed"))
  /\ console (snd (process_audio Demo.happy (Demo.request_with Demo.broken_upload)
                                 initial_world)) = [].
Proof.
  split; [reflexivity|]. split; [reflexivity|]. split; [reflexivity|].
  split; [discriminate | reflexivity].
Qed.

(** C10 fails as stated: for the declared type [audio/webm;codecs=opus]
    the hint is the bare subtype, without the parameter suffix. *)
Lemma format_hint_drops_parameters :
  content_type Demo.webm_opus = "audio/webm;codecs=opus"
  /\ format_hint Demo.webm_opus = "webm"
  /\ format_hint Demo.webm_opus <> "webm;codecs=opus".
Proof.
  split; [reflexivity|]. split; [reflexivity | discriminate].
Qed.

(** ** The theorems at concrete requests *)

Lemma missing_audio_field_rejected_witness :
  files_mem "audio" (files Demo.request_without_audio) = false
  /\ process_audio Demo.happy Demo.request_without_audio initial_world =
       (Responded {| status_code := 400;
                     resp_mimetype := "application/json";
                     resp_body := Json [("error", "No audio file provided")] |},
        initial_world).
Proof.
  split; [reflexivity|].
  apply (missing_audio_field_rejected Demo.happy Demo.request_without_audio
           initial_world).
  reflexivity.
Defined.

Lemma empty_transcript_canned_reply_witness :
  join [EmptyString] = EmptyString
  /\ exists w',
       process_audio Demo.silent (Demo.request_with Demo.webm) initial_world =
         (Responded {| status_code := 200;
                       resp_mimetype := "application/json";
                       resp_body := Json [("text", "I didn't catch that. Could you please repeat?");
                                          ("audio", EmptyString)] |},
          w')
       /\ console w' = console initial_world.
Proof.
  split; [reflexivity|].
  apply (empty_transcript_canned_reply Demo.silent (Demo.request_with Demo.webm)
           initial_world Demo.webm Demo.clip Demo.silence [EmptyString]);
    reflexivity.
Defined.

Lemma empty_transcript_leaves_session_witness :
  top_transcripts Demo.silence = Some [EmptyString]
  /\ exists new,
       history (snd (process_audio Demo.silent (Demo.request_with Demo.webm)
                                   initial_world)) = history initial_world
       /\ calls (snd (process_audio Demo.silent (Demo.request_with Demo.webm)
                                    initial_world)) = calls initial_world ++ new
       /\ Forall (fun c => is_chat_or_tts c = false) new.
Proof.
  split; [reflexivity|].
  apply (empty_transcript_leaves_session Demo.silent (Demo.request_with Demo.webm)
           initial_world Demo.webm Demo.clip Demo.silence [EmptyString]);
    reflexivity.
Defined.

Lemma forwarded_transcript_witness :
  top_transcripts Demo.heard = Some ["I want"; " a pizza"]
  /\ join ["I want"; " a pizza"] = "I want a pizza"
  /\ In (CallSendMessage "I want a pizza")
        (calls (snd (process_audio Demo.happy (Demo.request_with Demo.webm)
                                   initial_world))).
Proof.
  split; [reflexivity|]. split; [reflexivity|].
  apply (proj2 (proj2 (forwarded_transcript_is_join_of_top_alternatives
                         Demo.happy (Demo.request_with Demo.webm) initial_world
                         Demo.webm Demo.clip Demo.heard
                         eq_refl eq_refl eq_refl))
           ["I want"; " a pizza"]).
  - reflexivity.
  - discriminate.
Defined.

Lemma history_grows_by_two_witness :
  is_audio_response (send_file Demo.mp3 "audio/mpeg")
  /\ exists f b results ts reply,
       files_get "audio" (files (Demo.request_with Demo.webm)) = Some f
       /\ read f = inr b
       /\ recognized Demo.happy f b = inr results
       /\ top_transcripts results = Some ts
       /\ join ts <> EmptyString
       /\ generate_content Demo.happy (history initial_world ++ [user_turn (join ts)])
          = inr reply
       /\ history (snd (process_audio Demo.happy (Demo.request_with Demo.webm)
                                      initial_world))
          = history initial_world ++ [user_turn (join ts); model_turn reply]
       /\ length (history (snd (process_audio Demo.happy (Demo.request_with Demo.webm)
                                              initial_world)))
          = length (history initial_world) + 2.
Proof.
  assert (Haudio : is_audio_response (send_file Demo.mp3 "audio/mpeg")).
  { split; [reflexivity | now exists Demo.mp3]. }
  split; [exact Haudio|].
  apply (proj2 (history_grows_by_two_on_success Demo.happy)
           (Demo.request_with Demo.webm) initial_world
           (snd (process_audio Demo.happy (Demo.request_with Demo.webm) initial_world))
           (send_file Demo.mp3 "audio/mpeg")).
  - reflexivity.
  - exact Haudio.
Defined.

Lemma failure_after_chat_keeps_turns_witness :
  synthesize_speech Demo.tts_down Demo.reply_text tts_voice tts_audio_config
    = inl Demo.quota
  /\ exists w',
       process_audio Demo.tts_down (Demo.request_with Demo.webm) initial_world =
         (Responded {| status_code := 500;
                       resp_mimetype := "application/json";
                       resp_body := Json [("error", "429 quota exceeded")] |},
          w')
       /\ history w' = history initial_world
                       ++ [user_turn "I want a pizza"; model_turn Demo.reply_text]
       /\ length (history w') = length (history initial_world) + 2.
Proof.
  split; [reflexivity|].
  apply (failure_after_chat_keeps_turns Demo.tts_down (Demo.request_with Demo.webm)
           initial_world Demo.webm Demo.clip Demo.heard ["I want"; " a pizza"]
           Demo.reply_text Demo.quota);
    try reflexivity.
  discriminate.
Defined.

Lemma response_is_audio_text_or_error_witness :
  read Demo.webm = inr Demo.clip
  /\ exists r w',
       process_audio Demo.happy (Demo.request_with Demo.webm) initial_world
         = (Responded r, w')
       /\ ((status_code r = 200 /\ is_audio_response r)
           \/ (status_code r = 200
               /\ resp_body r = Json [("text", NOT_CAUGHT_TEXT); ("audio", EmptyString)]
               /\ has_json_field "text" r)
           \/ (exists e, raises_in_try Demo.happy Demo.webm Demo.clip
                                       (history initial_world) e
                         /\ status_code r = 500
                         /\ resp_body r = Json [("error", str e)])).
Proof.
  split; [reflexivity|].
  apply (response_is_audio_text_or_error Demo.happy (Demo.request_with Demo.webm)
           initial_world Demo.webm Demo.clip); reflexivity.
Defined.

Lemma exception_in_try_gives_500_witness :
  raises_in_try Demo.stt_down Demo.webm Demo.clip (history initial_world)
                Demo.unavailable
  /\ exists w',
       process_audio Demo.stt_down (Demo.request_with Demo.webm) initial_world =
         (Responded {| status_code := 500;
                       resp_mimetype := "application/json";
                       resp_body := Json [("error", "503 recognizer unavailable")] |},
          w')
       /\ last (console w') EmptyString = error_line Demo.unavailable.
Proof.
  assert (Hraise : raises_in_try Demo.stt_down Demo.webm Demo.clip
                                 (history initial_world) Demo.unavailable).
  { apply raise_recognize. reflexivity. }
  split; [exact Hraise|].
  apply (exception_in_try_gives_500 Demo.stt_down (Demo.request_with Demo.webm)
           initial_world Demo.webm Demo.clip Demo.unavailable);
    [reflexivity | reflexivity | exact Hraise].
Defined.

Lemma action_logger_triggers_witness :
  is_substring "Order placed." Demo.reply_text
  /\ count_occ string_dec
       ([customer_line "I want a pizza"; chefbot_line Demo.reply_text]
          ++ action_lines Demo.reply_text) ORDER_LINE = 1.
Proof.
  assert (Hsub : is_substring "Order placed." Demo.reply_text).
  { exists EmptyString, " Anything else?". reflexivity. }
  split; [exact Hsub|].
  apply (proj1 (proj2 (proj2 (proj2
           (action_logger_triggers Demo.happy "I want a pizza" Demo.reply_text
              initial_world ltac:(discriminate) eq_refl)))) Hsub).
Defined.

Lemma format_hint_after_last_slash_witness :
  has_char "/" (mimetype Demo.webm_opus) = true
  /\ exists pre, mimetype Demo.webm_opus
                 = (pre ++ "/" ++ format_hint Demo.webm_opus)%string.
Proof.
  split; [reflexivity|].
  apply (proj1 (proj2 (proj2 (format_hint_after_last_slash Demo.webm_opus)))).
  reflexivity.
Defined.


(** ** Beyond the claims: the handler as a whole *)

Section Coverage.

Variable svc : Services.

Ltac trace_ok :=
  unfold transcription_trace; simpl;
  repeat split; repeat constructor; simpl; auto; lia.

(** The calls of [transcribe] do not depend on the world it starts in; they
    come in the order of the text and with its literal arguments. *)
Lemma transcribe_trace f b :
  exists new,
    transcription_trace new /\
    forall w,
      transcribe svc f b w =
        (sum_bind (recognized svc f b) (concat_transcripts svc EmptyString),
         {| history := history w; console := console w; calls := calls w ++ new |}).
Proof.
  unfold transcribe, recognized, bind, invoke, lift, sum_bind.
  set (fmt := format_hint f).
  destruct (from_file svc b fmt) as [e|s1].
  { exists [CallFromFile b fmt]. split; [trace_ok | reflexivity]. }
  destruct (set_channels svc s1 1%Z) as [e|s2].
  { exists [CallFromFile b fmt; CallSetChannels 1%Z].
    split; [trace_ok | intros w; simpl; now rewrite <- !app_assoc]. }
  destruct (set_frame_rate svc s2 16000%Z) as [e|s3].
  { exists [CallFromFile b fmt; CallSetChannels 1%Z; CallSetFrameRate 16000%Z].
    split; [trace_ok | intros w; simpl; now rewrite <- !app_assoc]. }
  destruct (set_sample_width svc s3 2%Z) as [e|s4].
  { exists [CallFromFile b fmt; CallSetChannels 1%Z; CallSetFrameRate 16000%Z;
            CallSetSampleWidth 2%Z].
    split; [trace_ok | intros w; simpl; now rewrite <- !app_assoc]. }
  destruct (export svc s4 "wav") as [e|wav].
  { exists [CallFromFile b fmt; CallSetChannels 1%Z; CallSetFrameRate 16000%Z;
            CallSetSampleWidth 2%Z; CallExport "wav"].
    split; [trace_ok | intros w; simpl; now rewrite <- !app_assoc]. }
  exists [CallFromFile b fmt; CallSetChannels 1%Z; CallSetFrameRate 16000%Z;
          CallSetSampleWidth 2%Z; CallExport "wav"; CallRecognize stt_config wav].
  split; [trace_ok|]. intros w; simpl. rewrite <- !app_assoc.
  now destruct (recognize svc stt_config wav).
Qed.

(** A request with a readable [audio] part runs as [staged_result] says,
    with one list of transcription calls for every starting world. *)
Lemma process_audio_staged req f b :
  files_get "audio" (files req) = Some f ->
  read f = inr b ->
  exists new,
    transcription_trace new /\
    forall w, process_audio svc req w = staged_result svc f b new w.
Proof.
  intros Hget Hread.
  destruct (transcribe_trace f b) as (new & Hnew & Htr).
  exists new. split; [exact Hnew|]. intros w.
  rewrite (process_audio_enter svc req w f b Hget Hread).
  unfold try_body, bind, staged_result. rewrite Htr.
  replace {| history := history (after_read w); console := console (after_read w);
             calls := calls (after_read w) ++ new |}
    with (after_transcribe w new)
    by (unfold after_transcribe, after_read; simpl; now rewrite <- app_assoc).
  destruct (sum_bind _ _) as [e|t]; [reflexivity|].
  destruct (is_empty t) eqn:Ht.
  { apply is_empty_true in Ht. subst t. now rewrite respond_empty. }
  apply is_empty_false in Ht.
  destruct (generate_content svc (history w ++ [user_turn t])) as [e|reply] eqn:Hg.
  - rewrite (respond_chat_raises svc t e (after_transcribe w new) Ht Hg). simpl.
    unfold error_response, error_line. now rewrite <- !app_assoc.
  - rewrite (respond_chat_answers svc t reply (after_transcribe w new) Ht Hg). simpl.
    destruct (synthesize_speech svc reply tts_voice tts_audio_config); simpl;
      unfold error_response, error_line;
      rewrite <- ?app_assoc; simpl; rewrite <- ?app_assoc, ?app_nil_r; reflexivity.
Qed.

Lemma sorted_ranks_app (l1 l2 : list nat) :
  StronglySorted lt l1 -> StronglySorted lt l2 ->
  (forall x y, In x l1 -> In y l2 -> x < y) ->
  StronglySorted lt (l1 ++ l2).
Proof.
  induction l1 as [|x l1 IH]; intros H1 H2 Hlt; simpl; [exact H2|].
  inversion H1 as [|? ? Hs Hall]; subst. constructor.
  - apply IH; [exact Hs | exact H2 | intros; apply Hlt; simpl; auto].
  - apply Forall_app. split; [exact Hall|].
    apply Forall_forall. intros y Hy. apply Hlt; simpl; auto.
Qed.

(** The calls of a whole request, given those of transcription and the
    dialogue and synthesis calls [tail] that follow. *)
Lemma request_trace_sorted new tail :
  transcription_trace new ->
  StronglySorted lt (map stage_rank tail) ->
  Forall (fun c => 7 <= stage_rank c) tail ->
  StronglySorted lt (map stage_rank (CallRead :: new ++ tail)).
Proof.
  intros (Hsorted & _ & Hrange) Htail Hlate.
  rewrite Forall_forall in Hrange, Hlate.
  change (CallRead :: new ++ tail) with ([CallRead] ++ new ++ tail).
  rewrite !map_app. apply sorted_ranks_app; [repeat constructor | |].
  - apply sorted_ranks_app; [exact Hsorted | exact Htail |].
    intros x y Hx Hy. apply in_map_iff in Hx as (c & <- & Hc).
    apply in_map_iff in Hy as (d & <- & Hd).
    specialize (Hrange _ Hc). specialize (Hlate _ Hd). lia.
  - intros x y [<-|[]] Hy. apply in_app_or in Hy as [Hy|Hy];
      apply in_map_iff in Hy as (c & <- & Hc); simpl.
    + specialize (Hrange _ Hc). lia.
    + specialize (Hlate _ Hc). lia.
Qed.

Lemma request_trace_parameters new tail :
  transcription_trace new -> Forall fixed_parameters tail ->
  Forall fixed_parameters (CallRead :: new ++ tail).
Proof.
  intros (_ & Hfixed & _) Htail. constructor; [exact I|].
  apply Forall_app. now split.
Qed.

(** X1. Whatever a request ends with, its external calls come in the fixed
    order read, decode, set channels, set frame rate, set sample width,
    export, recognize, chat, synthesize; each is made at most once; each
    carries the literal arguments of the text; and synthesis is only asked
    for the reply the chat service gave in this same request. *)
Theorem calls_in_fixed_order (req : Request) (w : World) :
  exists new,
    calls (snd (process_audio svc req w)) = calls w ++ new
    /\ StronglySorted lt (map stage_rank new)
    /\ Forall fixed_parameters new
    /\ (forall text voice cfg,
          In (CallSynthesizeSpeech text voice cfg) new ->
          exists t, In (CallSendMessage t) new
                    /\ generate_content svc (history w ++ [user_turn t]) = inr text).
Proof.
  destruct (files_get "audio" (files req)) as [f|] eqn:Hget.
  2:{ exists []. unfold process_audio. rewrite Hget. simpl.
      rewrite app_nil_r. repeat split; try constructor. intros ? ? ? []. }
  destruct (read f) as [e|b] eqn:Hread.
  { exists [CallRead]. unfold process_audio, invoke. rewrite Hget, Hread. simpl.
    repeat split; repeat constructor. intros ? ? ? [H|[]]; discriminate. }
  destruct (process_audio_staged req f b Hget Hread) as (new & Hnew & Hrun).
  rewrite Hrun. unfold staged_result.
  assert (Hnone : forall text voice cfg,
             ~ In (CallSynthesizeSpeech text voice cfg) (CallRead :: new)).
  { intros text voice cfg [H|H]; [discriminate|].
    destruct Hnew as (_ & _ & Hrange). rewrite Forall_forall in Hrange.
    specialize (Hrange _ H). simpl in Hrange. lia. }
  assert (Hplain : exists new0,
             calls w ++ CallRead :: new = calls w ++ new0
             /\ StronglySorted lt (map stage_rank new0)
             /\ Forall fixed_parameters new0
             /\ (forall text voice cfg,
                   In (CallSynthesizeSpeech text voice cfg) new0 ->
                   exists t, In (CallSendMessage t) new0
                             /\ generate_content svc (history w ++ [user_turn t])
                                = inr text)).
  { exists (CallRead :: new). split; [reflexivity|].
    rewrite <- (app_nil_r new).
    split; [apply request_trace_sorted; [exact Hnew | constructor | constructor]|].
    split; [apply request_trace_parameters; [exact Hnew | constructor]|].
    rewrite app_nil_r. intros text voice cfg H. now apply Hnone in H. }
  destruct (sum_bind _ _) as [e|t]; [exact Hplain|].
  destruct (is_empty t); [exact Hplain|].
  destruct (generate_content svc (history w ++ [user_turn t])) as [e|reply] eqn:Hg.
  - exists (CallRead :: new ++ [CallSendMessage t]). split; [reflexivity|].
    split; [apply request_trace_sorted; [exact Hnew | repeat constructor
                                        | repeat constructor; simpl; lia]|].
    split; [apply request_trace_parameters; [exact Hnew | repeat constructor]|].
    intros text voice cfg H.
    change (CallRead :: new ++ [CallSendMessage t])
      with ((CallRead :: new) ++ [CallSendMessage t]) in H.
    apply in_app_or in H as [H|[H|[]]]; [now apply Hnone in H | discriminate].
  - assert (Hfull : exists new0,
               calls w ++ CallRead :: new ++
                 [CallSendMessage t;
                  CallSynthesizeSpeech reply tts_voice tts_audio_config]
               = calls w ++ new0
               /\ StronglySorted lt (map stage_rank new0)
               /\ Forall fixed_parameters new0
               /\ (forall text voice cfg,
                     In (CallSynthesizeSpeech text voice cfg) new0 ->
                     exists t0, In (CallSendMessage t0) new0
                                /\ generate_content svc (history w ++ [user_turn t0])
                                   = inr text)).
    { eexists. split; [reflexivity|].
      split; [apply request_trace_sorted; [exact Hnew | repeat constructor
                                          | repeat constructor; simpl; lia]|].
      split; [apply request_trace_parameters; [exact Hnew|];
              repeat constructor; simpl; auto|].
      intros text voice cfg H.
      change (CallRead :: new ++ ?l) with ((CallRead :: new) ++ l) in H.
      apply in_app_or in H as [H|[H|[H|[]]]];
        [now apply Hnone in H | discriminate |].
      injection H as <- _ _. exists t. split; [|exact Hg].
      apply in_cons, in_or_app. right. now left. }
    destruct (synthesize_speech svc reply tts_voice tts_audio_config); exact Hfull.
Qed.

(** X3. A request is answered with the audio response exactly when its
    part is read, every codec step and the recognition call succeed, every
    result has a top alternative, the joined transcript is not empty and
    both the chat and the synthesis call answer; the body is then the very
    bytes synthesis returned for the chat reply to that transcript. *)
Theorem audio_response_is_synthesized_reply (req : Request) (w : World)
    (r : Response) :
  ((exists w', process_audio svc req w = (Responded r, w')) /\ is_audio_response r)
  <->
  (exists f b results ts reply audio,
     files_get "audio" (files req) = Some f
     /\ read f = inr b
     /\ recognized svc f b = inr results
     /\ top_transcripts results = Some ts
     /\ join ts <> EmptyString
     /\ generate_content svc (history w ++ [user_turn (join ts)]) = inr reply
     /\ synthesize_speech svc reply tts_voice tts_audio_config = inr audio
     /\ r = send_file audio "audio/mpeg").
Proof.
  split.
  - intros [[w' Hrun] [Hmime _]].
    destruct (files_get "audio" (files req)) as [f|] eqn:Hget.
    2:{ unfold process_audio in Hrun. rewrite Hget in Hrun.
        injection Hrun as <- _. discriminate. }
    destruct (read f) as [e|b] eqn:Hread.
    { unfold process_audio, invoke in Hrun. rewrite Hget, Hread in Hrun.
      discriminate. }
    destruct (process_audio_staged req f b Hget Hread) as (new & _ & Heq).
    rewrite Heq in Hrun. unfold staged_result in Hrun.
    destruct (recognized svc f b) as [e|results] eqn:Hrec; cbn [sum_bind] in Hrun.
    { injection Hrun as <- _. discriminate. }
    rewrite concat_transcripts_run in Hrun.
    destruct (top_transcripts results) as [ts|] eqn:Htop.
    2:{ injection Hrun as <- _. discriminate. }
    destruct (is_empty (join ts)) eqn:Hne.
    { injection Hrun as <- _. discriminate. }
    apply is_empty_false in Hne.
    destruct (generate_content svc _) as [e|reply] eqn:Hg.
    { injection Hrun as <- _. discriminate. }
    destruct (synthesize_speech svc _ _ _) as [e|audio] eqn:Htts.
    { injection Hrun as <- _. discriminate. }
    injection Hrun as <- _.
    exists f, b, results, ts, reply, audio. repeat split; assumption.
  - intros (f & b & results & ts & reply & audio & Hget & Hread & Hrec & Htop
            & Hne & Hg & Htts & ->).
    destruct (process_audio_staged req f b Hget Hread) as (new & _ & Heq).
    split; [|split; [reflexivity | now exists audio]].
    rewrite Heq. unfold staged_result.
    rewrite (transcript_of_results svc f b results ts Hrec Htop).
    apply is_empty_false in Hne. rewrite Hne, Hg, Htts. now eexists.
Qed.

(** X4. The status code tells the three endings apart: 400 exactly when the
    form has no [audio] field, 500 exactly for the error object of the
    [except] clause, 200 exactly for the canned text object or an
    [audio/mpeg] file; no other status is ever returned. *)
Theorem status_tells_the_ending (req : Request) (w w' : World) (r : Response) :
  process_audio svc req w = (Responded r, w') ->
  (status_code r = 400 <-> files_mem "audio" (files req) = false)
  /\ (status_code r = 500 <-> exists e, r = error_response e)
  /\ (status_code r = 200 <->
      r = canned_response \/ exists audio, r = send_file audio "audio/mpeg")
  /\ (status_code r = 200 \/ status_code r = 400 \/ status_code r = 500).
Proof.
  intros Hrun. unfold files_mem.
  assert (Herr : forall e,
             (status_code (error_response e) = 400 <-> true = false)
             /\ (status_code (error_response e) = 500 <->
                 exists e0, error_response e = error_response e0)
             /\ (status_code (error_response e) = 200 <->
                 error_response e = canned_response \/
                 exists audio, error_response e = send_file audio "audio/mpeg")
             /\ (status_code (error_response e) = 200 \/
                 status_code (error_response e) = 400 \/
                 status_code (error_response e) = 500)).
  { intros e. simpl. repeat split; try discriminate; auto.
    - now exists e.
    - intros [H|[audio H]]; discriminate. }
  destruct (files_get "audio" (files req)) as [f|] eqn:Hget.
  2:{ unfold process_audio in Hrun. rewrite Hget in Hrun.
      injection Hrun as <- _. simpl. repeat split; try discriminate; auto.
      - intros [e H]. discriminate.
      - intros [H|[audio H]]; discriminate. }
  destruct (read f) as [e|b] eqn:Hread.
  { unfold process_audio, invoke in Hrun. rewrite Hget, Hread in Hrun. discriminate. }
  destruct (process_audio_staged req f b Hget Hread) as (new & _ & Heq).
  rewrite Heq in Hrun. unfold staged_result in Hrun.
  destruct (sum_bind _ _) as [e|t].
  { injection Hrun as <- _. apply Herr. }
  destruct (is_empty t).
  { injection Hrun as <- _. simpl. repeat split; try discriminate; auto.
    intros [e H]. discriminate. }
  destruct (generate_content svc _) as [e|reply].
  { injection Hrun as <- _. apply Herr. }
  destruct (synthesize_speech svc _ _ _) as [e|audio].
  { injection Hrun as <- _. apply Herr. }
  injection Hrun as <- _. simpl. repeat split; try discriminate; auto.
  - intros [e H]. discriminate.
  - intros _. right. now exists audio.
Qed.

Lemma top_transcripts_missing results :
  Exists (fun r => alternatives r = []) results -> top_transcripts results = None.
Proof.
  induction 1 as [r rest Hr | r rest _ IH]; simpl; unfold top_transcript.
  - now rewrite Hr.
  - rewrite IH. now destruct (alternatives r).
Qed.

(** X5. One result without alternatives spoils the whole answer: whatever
    the other results hold, indexing it raises, the request ends with
    HTTP 500 carrying that IndexError, nothing is sent to the chat service,
    the history is untouched and only the error line is printed. *)
Theorem result_without_alternatives_fails (req : Request) (w : World)
    (f : FileStorage) (b : bytes) (results : list SpeechRecognitionResult) :
  files_get "audio" (files req) = Some f ->
  read f = inr b ->
  recognized svc f b = inr results ->
  Exists (fun r => alternatives r = []) results ->
  exists w',
    process_audio svc req w =
      (Responded {| status_code := 500;
                    resp_mimetype := "application/json";
                    resp_body := Json [("error", str (index_error svc))] |},
       w')
    /\ history w' = history w
    /\ console w' = console w ++ [error_line (index_error svc)]
    /\ (forall t, In (CallSendMessage t) (calls w') -> In (CallSendMessage t) (calls w)).
Proof.
  intros Hget Hread Hrec Hex.
  destruct (process_audio_staged req f b Hget Hread) as (new & Hnew & ->).
  unfold staged_result. rewrite Hrec. cbn [sum_bind].
  rewrite concat_transcripts_run, (top_transcripts_missing _ Hex).
  eexists. split; [reflexivity|]. simpl. repeat split.
  intros t Hin. apply in_app_or in Hin as [Hin|[Hin|Hin]]; [exact Hin | discriminate|].
  destruct Hnew as (_ & _ & Hrange). rewrite Forall_forall in Hrange.
  specialize (Hrange _ Hin). simpl in Hrange. lia.
Qed.

End Coverage.

Lemma lower_app_inv x : forall s y,
  lower s = (x ++ y)%string ->
  exists a b, s = (a ++ b)%string /\ lower a = x /\ lower b = y.
Proof.
  induction x as [|c x IH]; intros s y H.
  - now exists EmptyString, s.
  - destruct s as [|d s]; simpl in H; [discriminate|].
    injection H as Hc Hrest. destruct (IH _ _ Hrest) as (a & b & -> & Ha & Hb).
    exists (String d a), b. simpl. now rewrite Hc, Ha, Hb.
Qed.

(** An occurrence in the lowercased text is the lowercasing of an
    occurrence in the text, and conversely. *)
Lemma substring_of_lower n text :
  is_substring n (lower text) <->
  exists phrase, lower phrase = n /\ is_substring phrase text.
Proof.
  split.
  - intros (pre & post & H).
    destruct (lower_app_inv _ _ _ H) as (a & rest & -> & _ & Hrest).
    destruct (lower_app_inv _ _ _ Hrest) as (phrase & c & -> & Hp & _).
    exists phrase. split; [exact Hp | now exists a, c].
  - intros (phrase & <- & pre & post & ->).
    exists (lower pre), (lower post). now rewrite !lower_app.
Qed.

(** X7. The action logger matches its phrases in any casing and nothing
    else: the order line is printed exactly when the reply contains some
    casing of [order placed], the booking line exactly when it contains
    some casing of [table confirmed] or of [booking confirmed]. *)
Theorem triggers_match_any_casing (reply : string) :
  (In ORDER_LINE (action_lines reply) <->
   exists phrase, lower phrase = "order placed" /\ is_substring phrase reply)
  /\ (In BOOKING_LINE (action_lines reply) <->
      exists phrase,
        (lower phrase = "table confirmed" \/ lower phrase = "booking confirmed")
        /\ is_substring phrase reply).
Proof.
  split.
  - now rewrite order_line_printed, contains_spec, substring_of_lower.
  - rewrite booking_line_printed, orb_true_iff, !contains_spec, !substring_of_lower.
    split.
    + intros [(p & Hp & Hs) | (p & Hp & Hs)]; exists p; auto.
    + intros (p & [Hp|Hp] & Hs); [left | right]; now exists p.
Qed.

(** ** The further theorems at concrete requests *)

Lemma audio_response_is_synthesized_reply_witness :
  (exists w', process_audio Demo.happy (Demo.request_with Demo.webm) initial_world
              = (Responded (send_file Demo.mp3 "audio/mpeg"), w'))
  /\ is_audio_response (send_file Demo.mp3 "audio/mpeg").
Proof.
  apply (proj2 (audio_response_is_synthesized_reply Demo.happy
                  (Demo.request_with Demo.webm) initial_world
                  (send_file Demo.mp3 "audio/mpeg"))).
  exists Demo.webm, Demo.clip, Demo.heard, ["I want"; " a pizza"],
         Demo.reply_text, Demo.mp3.
  repeat split; try reflexivity. discriminate.
Defined.

Lemma status_tells_the_ending_witness :
  files_mem "audio" (files Demo.request_without_audio) = false
  /\ status_code (jsonify [("error", "No audio file provided")] 400) = 400.
Proof.
  split; [reflexivity|].
  apply (proj1 (status_tells_the_ending Demo.happy Demo.request_without_audio
                  initial_world initial_world
                  (jsonify [("error", "No audio file provided")] 400) eq_refl)).
  reflexivity.
Defined.

Lemma result_without_alternatives_fails_witness :
  top_transcript (Demo.segment ["hello"]) = Some "hello"
  /\ exists w',
       process_audio Scenario.ragged_stt (Demo.request_with Demo.webm) initial_world =
         (Responded {| status_code := 500;
                       resp_mimetype := "application/json";
                       resp_body := Json [("error", "list index out of range")] |},
          w')
       /\ history w' = history initial_world
       /\ console w' = console initial_world
                       ++ [error_line (index_error Scenario.ragged_stt)]
       /\ (forall t, In (CallSendMessage t) (calls w') ->
                     In (CallSendMessage t) (calls initial_world)).
Proof.
  split; [reflexivity|].
  apply (result_without_alternatives_fails Scenario.ragged_stt
           (Demo.request_with Demo.webm) initial_world Demo.webm Demo.clip
           Scenario.ragged); try reflexivity.
  apply Exists_cons_tl, Exists_cons_hd. reflexivity.
Defined.

Lemma triggers_match_any_casing_witness :
  is_substring "BOOKING CONFIRMED" Scenario.shouted_reply
  /\ In BOOKING_LINE (action_lines Scenario.shouted_reply).
Proof.
  assert (Hsub : is_substring "BOOKING CONFIRMED" Scenario.shouted_reply).
  { exists "Your ", " for 7 PM.". reflexivity. }
  split; [exact Hsub|].
  apply (proj2 (proj2 (triggers_match_any_casing Scenario.shouted_reply))).
  exists "BOOKING CONFIRMED". split; [right; reflexivity | exact Hsub].
Defined.

